(** * threeML.utils.binner: Rebinner and TemporalBinner

    A shallow embedding of [threeML/utils/binner.py] and the properties of
    its two classes.

    Numbers.  The Python code works on numpy arrays of counts or of
    floating-point values.  The embedding takes every number as an exact
    rational ([Q]): rounding is not modelled, and [np.sum] is the exact sum.
    Array indices are [nat].  A Python exception is a value of [exn] carried
    by [result]. *)

From Stdlib Require Import List Arith Bool Lia ZArith QArith Qabs Qround.
From Stdlib Require Import Reals Qreals Lqa Sorted.
Import ListNotations.

(** ** Exceptions and the error monad *)

Inductive exn : Type :=
| NotEnoughData
| AssertionError
| IndexError
| ZeroDivisionError.

Inductive result (A : Type) : Type :=
| Ok (a : A)
| Raise (e : exn).

Arguments Ok {A} a.
Arguments Raise {A} e.

Definition bind {A B : Type} (r : result A) (k : A -> result B) : result B :=
  match r with
  | Ok a => k a
  | Raise e => Raise e
  end.

Notation "x <- r ;; k" := (bind r (fun x => k))
  (at level 61, r at next level, right associativity).

(** [assert c] of Python: nothing happens when [c] holds, [AssertionError]
    otherwise. *)
Definition assert (c : bool) : result unit :=
  if c then Ok tt else Raise AssertionError.

(** ** numpy primitives on exact numbers *)

Local Open Scope Q_scope.

(** [np.sum] of a one-dimensional array. *)
Definition np_sum (l : list Q) : Q := fold_right Qplus 0 l.

(** [a < b] on numbers, as a boolean. *)
Definition Qlt_bool (a b : Q) : bool := negb (Qle_bool b a).

(** [a[lo:hi]] for non-negative [lo] and [hi]: the elements at the indices
    [lo <= j < min hi (len a)], none when [hi <= lo] or [len a <= lo]. *)
Definition slice {A : Type} (a : list A) (lo hi : nat) : list A :=
  firstn (hi - lo) (skipn lo a).

(** [a[mask]] for a boolean array [mask] of the length of [a]: the elements
    of [a] at the positions where [mask] is true, in order. *)
Fixpoint boolean_index {A : Type} (a : list A) (mask : list bool) : list A :=
  match a, mask with
  | x :: a', m :: mask' =>
      if m then x :: boolean_index a' mask' else boolean_index a' mask'
  | _, _ => []
  end.

(** [enumerate(a)], counting from [i]. *)
Fixpoint enumerate_from {A : Type} (i : nat) (a : list A) : list (nat * A) :=
  match a with
  | [] => []
  | x :: a' => (i, x) :: enumerate_from (S i) a'
  end.

Definition enumerate {A : Type} (a : list A) : list (nat * A) :=
  enumerate_from 0 a.

(** [np.arange(start, stop, step)] on exact numbers, as numpy documents it:
    [ceil((stop - start) / step)] values [start + i * step], none when that
    count is not positive.  A zero [step] raises ([ZeroDivisionError] on
    integers; the one exception stands for the failure on floats too). *)
Definition np_arange (start stop step : Q) : result (list Q) :=
  if Qeq_bool step 0 then Raise ZeroDivisionError
  else
    let len := Z.to_nat (Qceiling ((stop - start) / step)) in
    Ok (map (fun i => start + inject_Z (Z.of_nat i) * step) (seq 0 len)).

(** [a[i]] for a Python integer [i]: a negative index counts from the end,
    and an index outside [-len a <= i < len a] raises [IndexError]. *)
Definition getitem (a : list Q) (i : Z) : result Q :=
  let len := Z.of_nat (length a) in
  if ((0 <=? i) && (i <? len))%Z then Ok (nth (Z.to_nat i) a 0)
  else if ((- len <=? i) && (i <? 0))%Z then Ok (nth (Z.to_nat (len + i)) a 0)
  else Raise IndexError.

(** [a[i] = x] for a non-negative index [i]. *)
Definition setitem (a : list Q) (i : nat) (x : Q) : result (list Q) :=
  if (i <? length a)%nat then Ok (firstn i a ++ x :: skipn (S i) a)
  else Raise IndexError.

(** ** class Rebinner *)

Module Rebinner.

Record t : Type := {
  _mask : list bool;
  _starts : list nat;
  _stops : list nat;
  _min_value_per_bin : Q
}.

(** The local variables of the loop of [__init__]: [self._starts],
    [self._stops], [n] and [bin_open]. *)
Record loop_state : Type := {
  starts : list nat;
  stops : list nat;
  n : Q;
  bin_open : bool
}.

Definition loop_init : loop_state :=
  {| starts := []; stops := []; n := 0; bin_open := false |}.

(** One iteration of [for index, b in enumerate(vector_to_rebin_on)].
    [mask[index]] is in range: [__init__] has asserted that the mask has
    the length of the vector (or has built it so). *)
Definition loop_body (mask : list bool) (min_value_per_bin : Q)
    (st : loop_state) (index : nat) (b : Q) : loop_state :=
  if negb (nth index mask false) then
    (* This element is excluded by the mask *)
    if negb (bin_open st) then
      st
    else
      {| starts := starts st; stops := stops st ++ [index];
         n := 0; bin_open := false |}
  else
    (* This element is included by the mask *)
    let st1 :=
      if negb (bin_open st) then
        {| starts := starts st ++ [index]; stops := stops st;
           n := 0; bin_open := true |}
      else st in
    let st2 :=
      {| starts := starts st1; stops := stops st1;
         n := n st1 + b; bin_open := bin_open st1 |} in
    if Qle_bool min_value_per_bin (n st2) then
      {| starts := starts st2; stops := stops st2 ++ [(index + 1)%nat];
         n := 0; bin_open := false |}
    else st2.

Definition loop (mask : list bool) (min_value_per_bin : Q)
    (items : list (nat * Q)) (st : loop_state) : loop_state :=
  fold_left (fun st ib => loop_body mask min_value_per_bin st (fst ib) (snd ib))
            items st.

(** [Rebinner(vector_to_rebin_on, min_value_per_bin, mask)]; [mask] is
    [None] when the argument is left out. *)
Definition __init__ (vector_to_rebin_on : list Q) (min_value_per_bin : Q)
    (mask : option (list bool)) : result t :=
  let total := np_sum vector_to_rebin_on in
  if Qlt_bool total min_value_per_bin then Raise NotEnoughData
  else
    mask <- match mask with
            | Some mask =>
                _ <- assert (length mask =? length vector_to_rebin_on)%nat ;;
                Ok mask
            | None => Ok (repeat true (length vector_to_rebin_on))
            end ;;
    let st := loop mask min_value_per_bin (enumerate vector_to_rebin_on)
                   loop_init in
    let stops' :=
      if bin_open st then stops st ++ [length vector_to_rebin_on]
      else stops st in
    _ <- assert (length (starts st) =? length stops')%nat ;;
    Ok {| _mask := mask; _starts := starts st; _stops := stops';
          _min_value_per_bin := min_value_per_bin |}.

Definition n_bins (self : t) : nat := length (_starts self).

(** [zip(self._starts, self._stops)]: the bins [(low_bound, hi_bound)]. *)
Definition bins (self : t) : list (nat * nat) :=
  combine (_starts self) (_stops self).

(** The [rebinned_vector] that the inner loop of [rebin] builds. *)
Definition rebinned_vector (self : t) (vector_a : list Q) : list Q :=
  map (fun b => np_sum (slice vector_a (fst b) (snd b))) (bins self).

(** [abs(a / b - 1) < 1e-4].  numpy divides by zero without raising: the
    quotient is nan or an infinity, and the comparison is then false. *)
Definition relative_check (a b : Q) : bool :=
  if Qeq_bool b 0 then false
  else Qlt_bool (Qabs (a / b - 1)) (1 # 10000).

(** The body of [for vector in vectors] in [rebin]. *)
Definition rebin_vector (self : t) (vector : list Q) : result (list Q) :=
  _ <- assert (length vector =? length (_mask self))%nat ;;
  let rebinned := rebinned_vector self vector in
  _ <- assert (relative_check (np_sum rebinned)
                              (np_sum (boolean_index vector (_mask self)))) ;;
  Ok rebinned.

Fixpoint rebin (self : t) (vectors : list (list Q)) : result (list (list Q)) :=
  match vectors with
  | [] => Ok []
  | vector :: vectors' =>
      rebinned <- rebin_vector self vector ;;
      rest <- rebin self vectors' ;;
      Ok (rebinned :: rest)
  end.

(** The body of [for vector in vectors] in [rebin_errors]; the vector is a
    numpy array, and [np.sqrt] is the square root of the reals. *)
Definition rebin_errors_vector (self : t) (vector : list Q) : result (list R) :=
  _ <- assert (length vector =? length (_mask self))%nat ;;
  Ok (map (fun b => sqrt (Q2R (np_sum (map (fun x => x ^ 2)
                                           (slice vector (fst b) (snd b))))))
          (bins self)).

Fixpoint rebin_errors (self : t) (vectors : list (list Q))
    : result (list (list R)) :=
  match vectors with
  | [] => Ok []
  | vector :: vectors' =>
      rebinned <- rebin_errors_vector self vector ;;
      rest <- rebin_errors self vectors' ;;
      Ok (rebinned :: rest)
  end.

(** The loop of [get_new_start_and_stop] over
    [enumerate(zip(self._starts, self._stops))]; [acc] holds [new_start]
    and [new_stop]. *)
Fixpoint new_edges_loop (old_start old_stop : list Q)
    (items : list (nat * (nat * nat))) (acc : list Q * list Q)
    : result (list Q * list Q) :=
  match items with
  | [] => Ok acc
  | (i, (low_bound, hi_bound)) :: items' =>
      a <- getitem old_start (Z.of_nat low_bound) ;;
      new_start <- setitem (fst acc) i a ;;
      b <- getitem old_stop (Z.of_nat hi_bound - 1) ;;
      new_stop <- setitem (snd acc) i b ;;
      new_edges_loop old_start old_stop items' (new_start, new_stop)
  end.

Definition get_new_start_and_stop (self : t) (old_start old_stop : list Q)
    : result (list Q * list Q) :=
  _ <- assert ((length old_start =? length (_mask self))%nat
               && (length old_stop =? length (_mask self))%nat) ;;
  let new_start := repeat 0 (length (_starts self)) in
  let new_stop := repeat 0 (length (_starts self)) in
  new_edges_loop old_start old_stop (enumerate (bins self))
                 (new_start, new_stop).

End Rebinner.

(** ** class TemporalBinner *)

Module TemporalBinner.

(** [_starts] and [_stops] are [None] until a binning method has set the
    attribute. *)
Record t : Type := {
  _arrival_times : list Q;
  _starts : option (list Q);
  _stops : option (list Q)
}.

Definition __init__ (arrival_times : list Q) : result t :=
  Ok {| _arrival_times := arrival_times; _starts := None; _stops := None |}.

(** The property [bins]: [[self._starts, self._stops]]; [None] stands
    for the [AttributeError] of an attribute that no binning method has
    set yet. *)
Definition bins (self : t) : option (list Q * list Q) :=
  match _starts self, _stops self with
  | Some starts, Some stops => Some (starts, stops)
  | _, _ => None
  end.

(** The variables of the scan of [bin_by_significance]: [self._starts],
    [self._stops], [total_counts] and [current_start]. *)
Record scan_state : Type := {
  starts : list Q;
  stops : list Q;
  total_counts : Z;
  current_start : Q
}.

Definition scan_init (first : Q) : scan_state :=
  {| starts := []; stops := []; total_counts := 0; current_start := first |}.

Section BinBySignificance.

(** [threeML.utils.stats_tools.Significance] is outside this module:
    [li_and_ma total bkg] stands for
    [Significance(total, bkg).li_and_ma()[0]], and
    [li_and_ma_equivalent_for_gaussian_background total bkg bkg_error]
    for the first component of the method of that name. *)
Variable li_and_ma : Z -> Q -> Q.
Variable li_and_ma_equivalent_for_gaussian_background : Z -> Q -> Q -> Q.

(** The arguments of [bin_by_significance]; the defaults of the source
    are [None], [10] and [1]. *)
Variable background_getter : Q -> Q -> Q.
Variable background_error_getter : option (Q -> Q -> Q).
Variable sigma_level : Q.
Variable min_counts : Z.

(** The [sigma] computed in the [else] branch of the loop body. *)
Definition sigma_of (total_counts : Z) (current_start time : Q) : Q :=
  let bkg := background_getter current_start time in
  match background_error_getter with
  | Some getter =>
      let bkg_error := getter current_start time in
      li_and_ma_equivalent_for_gaussian_background total_counts bkg bkg_error
  | None => li_and_ma total_counts bkg
  end.

(** One iteration of [for i, time in enumerate(self._arrival_times)].
    The progress bar only observes the scan and is left out. *)
Definition scan_body (st : scan_state) (time : Q) : scan_state :=
  let total_counts := (total_counts st + 1)%Z in
  if (total_counts <? min_counts)%Z then
    {| starts := starts st; stops := stops st;
       total_counts := total_counts; current_start := current_start st |}
  else
    let sigma := sigma_of total_counts (current_start st) time in
    if Qle_bool sigma_level sigma then
      {| starts := starts st ++ [current_start st];
         stops := stops st ++ [time];
         total_counts := 0; current_start := time |}
    else
      {| starts := starts st; stops := stops st;
         total_counts := total_counts; current_start := current_start st |}.

Definition scan (times : list Q) (st : scan_state) : scan_state :=
  fold_left scan_body times st.

(** The method mutates [self]: the result is the instance after the call
    and the outcome of the call.  [self._arrival_times[0]] raises
    [IndexError] on an empty sequence, after the two lists were reset. *)
Definition bin_by_significance (self : t) : t * result unit :=
  match _arrival_times self with
  | [] =>
      ({| _arrival_times := _arrival_times self;
          _starts := Some []; _stops := Some [] |}, Raise IndexError)
  | first :: _ =>
      let st := scan (_arrival_times self) (scan_init first) in
      ({| _arrival_times := _arrival_times self;
          _starts := Some (starts st); _stops := Some (stops st) |}, Ok tt)
  end.

(** The significance is computed for the window that ends at [time] and
    reaches [sigma_level]. *)
Definition reaches (st : scan_state) (time : Q) : Prop :=
  (min_counts <= total_counts st + 1)%Z /\
  sigma_level <= sigma_of (total_counts st + 1) (current_start st) time.

(** From [st] on, no arrival time of [times] reaches [sigma_level]. *)
Fixpoint never_reaches (st : scan_state) (times : list Q) : Prop :=
  match times with
  | [] => True
  | time :: times' =>
      ~ reaches st time /\ never_reaches (scan_body st time) times'
  end.

End BinBySignificance.

Definition bin_by_constanst (self : t) (dt : Q) : t * result unit :=
  match _arrival_times self with
  | [] => (self, Raise IndexError)
  | first :: _ =>
      match np_arange first (last (_arrival_times self) first) dt with
      | Ok tmp =>
          ({| _arrival_times := _arrival_times self;
              _starts := Some tmp;
              _stops := Some (map (fun x => x + dt) tmp) |}, Ok tt)
      | Raise e => (self, Raise e)
      end
  end.

End TemporalBinner.

(** * Vocabulary of the properties *)

(** The sum of [f j] for [lo <= j < hi]. *)
Definition sum_over (f : nat -> Q) (lo hi : nat) : Q :=
  np_sum (map f (seq lo (hi - lo))).

(** [chain lo bs hi]: the bins [bs] are non-empty intervals that follow one
    another without overlap, between [lo] and [hi]. *)
Fixpoint chain (lo : nat) (bs : list (nat * nat)) (hi : nat) : Prop :=
  match bs with
  | [] => (lo <= hi)%nat
  | (s, e) :: bs' => (lo <= s)%nat /\ (s < e)%nat /\ chain e bs' hi
  end.

(** The index [j] lies in one of the bins. *)
Definition in_bins (bs : list (nat * nat)) (j : nat) : Prop :=
  exists s e, In (s, e) bs /\ (s <= j < e)%nat.

(** A supplied mask has the length of the vector. *)
Definition valid_mask (v : list Q) (mask : option (list bool)) : Prop :=
  match mask with
  | Some mk => length mk = length v
  | None => True
  end.

(** The mask that [__init__] stores. *)
Definition effective_mask (v : list Q) (mask : option (list bool)) : list bool :=
  match mask with
  | Some mk => mk
  | None => repeat true (length v)
  end.

Section LoopInvariant.

Variable v : list Q.
Variable mask : list bool.
Variable m : Q.

(** A finished bin holds masked-true positions only, and has accumulated
    [m] unless a masked-out position (or the end of the vector) follows
    it. *)
Definition bin_ok (b : nat * nat) : Prop :=
  (forall j, (fst b <= j < snd b)%nat -> nth j mask false = true) /\
  (nth (snd b) mask false = true ->
   m <= sum_over (fun j => nth j v 0) (fst b) (snd b)).

(** The state before index [i] is looked at: [closed] are the finished
    bins; the positions from [b] to [i] are those of the open bin, if
    there is one. *)
Record inv_at (i : nat) (st : Rebinner.loop_state)
    (closed : list (nat * nat)) (b : nat) : Prop := {
  inv_stops : Rebinner.stops st = map snd closed;
  inv_starts :
    Rebinner.starts st
    = map fst closed ++ (if Rebinner.bin_open st then [b] else []);
  inv_front : if Rebinner.bin_open st then (b < i)%nat else b = i;
  inv_chain : chain 0 closed b;
  inv_ok : Forall bin_ok closed;
  inv_cov : forall j, (j < b)%nat -> nth j mask false = true ->
                      in_bins closed j;
  inv_true : forall j, (b <= j < i)%nat -> nth j mask false = true;
  inv_n : Rebinner.n st == sum_over (fun j => nth j v 0) b i
}.

Definition Inv (i : nat) (st : Rebinner.loop_state) : Prop :=
  exists closed b, inv_at i st closed b.

(** What construction establishes about the bins. *)
Record bins_spec (bs : list (nat * nat)) : Prop := {
  spec_chain : chain 0 bs (length v);
  spec_ok : Forall bin_ok bs;
  spec_cov : forall j, (j < length v)%nat -> nth j mask false = true ->
                       in_bins bs j
}.

End LoopInvariant.

Section GreedyInvariant.

Variable v : list Q.
Variable m : Q.



End GreedyInvariant.




(** Case analysis on every [assert] of the goal. *)
Ltac case_asserts :=
  repeat match goal with
         | |- context [assert ?c] => destruct c; cbn [assert bind]
         end.

(** * Lists and sums *)

Section ListFacts.

Context {A B : Type}.

Lemma combine_fst_snd (l : list (A * B)) :
  combine (map fst l) (map snd l) = l.
Proof.
  induction l as [|[a b] l IH]; simpl; [reflexivity|].
  now rewrite IH.
Qed.

Lemma slice_as_map (x : list A) (d : A) (s e : nat) :
  (e <= length x)%nat ->
  slice x s e = map (fun j => nth j x d) (seq s (e - s)).
Proof.
  intros He. unfold slice.
  apply nth_ext with (d := d) (d' := nth 0%nat x d).
  - rewrite length_firstn, length_skipn, length_map, length_seq. lia.
  - intros k Hk.
    rewrite length_firstn, length_skipn in Hk.
    rewrite nth_firstn.
    replace (k <? e - s)%nat with true by (symmetry; apply Nat.ltb_lt; lia).
    rewrite nth_skipn.
    rewrite (map_nth (fun j => nth j x d) (seq s (e - s)) 0%nat k).
    rewrite seq_nth by lia. reflexivity.
Qed.

End ListFacts.

Lemma np_sum_app (a b : list Q) : np_sum (a ++ b) == np_sum a + np_sum b.
Proof.
  induction a as [|x a IH]; simpl.
  - ring.
  - rewrite IH. ring.
Qed.



Lemma sum_over_empty (f : nat -> Q) (lo hi : nat) :
  (hi <= lo)%nat -> sum_over f lo hi == 0.
Proof.
  intros H. unfold sum_over.
  replace (hi - lo)%nat with 0%nat by lia. simpl. reflexivity.
Qed.

Lemma sum_over_snoc (f : nat -> Q) (lo hi : nat) :
  (lo <= hi)%nat -> sum_over f lo (S hi) == sum_over f lo hi + f hi.
Proof.
  intros H. unfold sum_over.
  replace (S hi - lo)%nat with (S (hi - lo)) by lia.
  rewrite seq_S, map_app, np_sum_app. simpl.
  replace (lo + (hi - lo))%nat with hi by lia. ring.
Qed.







(** * Chains of bins *)

Lemma chain_le lo bs hi : chain lo bs hi -> (lo <= hi)%nat.
Proof.
  revert lo. induction bs as [|[s e] bs IH]; simpl; intros lo H; [exact H|].
  destruct H as (H1 & H2 & H3). apply IH in H3. lia.
Qed.

Lemma chain_weaken lo bs hi hi' :
  chain lo bs hi -> (hi <= hi')%nat -> chain lo bs hi'.
Proof.
  revert lo. induction bs as [|[s e] bs IH]; simpl; intros lo H Hle; [lia|].
  destruct H as (H1 & H2 & H3). eauto.
Qed.

Lemma chain_snoc lo bs s e hi :
  chain lo bs s -> (s < e)%nat -> (e <= hi)%nat ->
  chain lo (bs ++ [(s, e)]) hi.
Proof.
  revert lo. induction bs as [|[s0 e0] bs IH]; simpl; intros lo H Hse Hhi.
  - auto.
  - destruct H as (H1 & H2 & H3). auto.
Qed.

Lemma chain_In lo bs hi s e :
  chain lo bs hi -> In (s, e) bs -> (lo <= s /\ s < e /\ e <= hi)%nat.
Proof.
  revert lo. induction bs as [|[s0 e0] bs IH]; simpl; intros lo H Hin;
    [contradiction|].
  destruct H as (H1 & H2 & H3). destruct Hin as [Heq|Hin].
  - injection Heq as -> ->. apply chain_le in H3. lia.
  - specialize (IH _ H3 Hin). lia.
Qed.

Lemma chain_ordered lo bs hi k1 k2 s1 e1 s2 e2 :
  chain lo bs hi -> (k1 < k2)%nat ->
  nth_error bs k1 = Some (s1, e1) -> nth_error bs k2 = Some (s2, e2) ->
  (e1 <= s2)%nat.
Proof.
  revert lo k1 k2. induction bs as [|[s0 e0] bs IH]; intros lo k1 k2 H Hlt H1 H2.
  - destruct k1; discriminate.
  - destruct H as (Ha & Hb & Hc).
    destruct k2 as [|k2]; [lia|]. simpl in H2.
    destruct k1 as [|k1]; simpl in H1.
    + injection H1 as -> ->.
      apply nth_error_In in H2. apply (chain_In _ _ _ _ _ Hc) in H2. lia.
    + apply (IH e0 k1 k2); auto. lia.
Qed.

Lemma in_bins_snoc closed s e j :
  in_bins closed j \/ (s <= j < e)%nat -> in_bins (closed ++ [(s, e)]) j.
Proof.
  intros [(s0 & e0 & Hin & Hj)|Hj].
  - exists s0, e0. split; [apply in_or_app; now left|exact Hj].
  - exists s, e. split; [apply in_or_app; right; now left|exact Hj].
Qed.

Create HintDb binner.
#[local] Hint Resolve chain_snoc chain_weaken : binner.


(** * The loop of [Rebinner.__init__] *)

Section Construction.

Import Rebinner.

Variable v : list Q.
Variable mask : list bool.
Variable m : Q.

Lemma Inv_init : Inv v mask m 0 loop_init.
Proof.
  exists [], 0%nat. constructor; simpl; auto; try (intros; lia).
  rewrite sum_over_empty by lia. reflexivity.
Qed.

Lemma bin_ok_snoc closed s e :
  Forall (bin_ok v mask m) closed ->
  (forall j, (s <= j < e)%nat -> nth j mask false = true) ->
  (nth e mask false = true -> m <= sum_over (fun j => nth j v 0) s e) ->
  Forall (bin_ok v mask m) (closed ++ [(s, e)]).
Proof.
  intros Hok Htrue Hm. apply Forall_app. split; [exact Hok|].
  constructor; [|constructor]. split; assumption.
Qed.

(** One iteration keeps the invariant. *)
Lemma loop_body_Inv i st :
  Inv v mask m i st ->
  Inv v mask m (S i) (loop_body mask m st i (nth i v 0)).
Proof.
  intros (closed & b & [Hstops Hstarts Hb Hchain Hok Hcov Htrue Hn]).
  unfold loop_body.
  destruct (nth i mask false) eqn:Hmk; cbn [negb];
    destruct (bin_open st) eqn:Hopen; cbn [negb].
  - (* included, a bin is open *)
    cbn [starts stops n bin_open].
    assert (Hsum : n st + nth i v 0
                   == sum_over (fun j => nth j v 0) b (S i)).
    { rewrite sum_over_snoc by lia. rewrite Hn. reflexivity. }
    assert (Htrue' : forall j, (b <= j < S i)%nat -> nth j mask false = true).
    { intros j Hj. destruct (Nat.eq_dec j i) as [->|]; [exact Hmk|].
      apply Htrue. lia. }
    destruct (Qle_bool m (n st + nth i v 0)) eqn:Hq.
    + exists (closed ++ [(b, S i)]), (S i).
      constructor; cbn [starts stops n bin_open].
      * rewrite Hstops, map_app, Nat.add_1_r. reflexivity.
      * rewrite Hstarts, map_app, app_nil_r. reflexivity.
      * reflexivity.
      * auto with binner.
      * apply bin_ok_snoc; auto.
        intros _. apply Qle_bool_iff in Hq. rewrite <- Hsum. exact Hq.
      * intros j Hj Hmj. apply in_bins_snoc.
        destruct (Nat.lt_ge_cases j b); [left; auto|right; lia].
      * intros j Hj. lia.
      * rewrite sum_over_empty by lia. reflexivity.
    + exists closed, b.
      constructor; cbn [starts stops n bin_open]; rewrite ?Hopen; auto.
  - (* included, no bin is open: one opens at [i] *)
    subst b. cbn [starts stops n bin_open].
    assert (Hsum : 0 + nth i v 0 == sum_over (fun j => nth j v 0) i (S i)).
    { rewrite sum_over_snoc, sum_over_empty by lia. reflexivity. }
    assert (Htrue' : forall j, (i <= j < S i)%nat -> nth j mask false = true).
    { intros j Hj. replace j with i by lia. exact Hmk. }
    rewrite app_nil_r in Hstarts.
    destruct (Qle_bool m (0 + nth i v 0)) eqn:Hq.
    + exists (closed ++ [(i, S i)]), (S i).
      constructor; cbn [starts stops n bin_open].
      * rewrite Hstops, map_app, Nat.add_1_r. reflexivity.
      * rewrite Hstarts, map_app, app_nil_r. reflexivity.
      * reflexivity.
      * auto with binner.
      * apply bin_ok_snoc; auto.
        intros _. apply Qle_bool_iff in Hq. rewrite <- Hsum. exact Hq.
      * intros j Hj Hmj. apply in_bins_snoc.
        destruct (Nat.lt_ge_cases j i); [left; auto|right; lia].
      * intros j Hj. lia.
      * rewrite sum_over_empty by lia. reflexivity.
    + exists closed, i.
      constructor; cbn [starts stops n bin_open]; auto.
      rewrite Hstarts. reflexivity.
  - (* excluded, a bin is open: it closes at [i] *)
    exists (closed ++ [(b, i)]), (S i).
    constructor; cbn [starts stops n bin_open].
    + rewrite Hstops, map_app. reflexivity.
    + rewrite Hstarts, map_app, app_nil_r. reflexivity.
    + reflexivity.
    + auto with binner.
    + apply bin_ok_snoc; auto.
      cbn [snd]. intros Hc. congruence.
    + intros j Hj Hmj. apply in_bins_snoc.
      destruct (Nat.lt_ge_cases j b); [left; auto|right].
      assert (j <> i) by congruence. lia.
    + intros j Hj. lia.
    + rewrite sum_over_empty by lia. reflexivity.
  - (* excluded, no bin is open *)
    subst b. exists closed, (S i).
    constructor; rewrite ?Hopen; auto.
    + eauto with binner.
    + intros j Hj Hmj. apply Hcov; [|exact Hmj].
      assert (j <> i) by congruence. lia.
    + intros j Hj. lia.
    + rewrite Hn. rewrite !sum_over_empty by lia. reflexivity.
Qed.

(** The whole loop, from any point of the vector on. *)
Lemma loop_Inv (vs pre : list Q) (st : loop_state) :
  v = pre ++ vs ->
  Inv v mask m (length pre) st ->
  Inv v mask m (length v) (loop mask m (enumerate_from (length pre) vs) st).
Proof.
  revert pre st. induction vs as [|b vs IH]; intros pre st Hv Hinv.
  - replace (length v) with (length pre)
      by (rewrite Hv, app_nil_r; reflexivity).
    exact Hinv.
  - cbn [enumerate_from loop fold_left fst snd].
    replace (S (length pre)) with (length (pre ++ [b]))
      by (rewrite length_app; simpl; lia).
    apply IH.
    + rewrite Hv, <- app_assoc. reflexivity.
    + rewrite length_app, Nat.add_1_r.
      replace b with (nth (length pre) v 0).
      * apply loop_body_Inv. exact Hinv.
      * rewrite Hv, app_nth2 by lia. rewrite Nat.sub_diag. reflexivity.
Qed.

End Construction.

Lemma effective_mask_length v mask :
  valid_mask v mask -> length (effective_mask v mask) = length v.
Proof.
  destruct mask as [mk|]; simpl; intros H; [exact H|apply repeat_length].
Qed.

(** A valid construction returns an instance whose bins satisfy
    [bins_spec]; the closing assertion of [__init__] never fails. *)
Lemma init_ok (v : list Q) (m : Q) (mask : option (list bool)) :
  m <= np_sum v -> valid_mask v mask ->
  exists self,
    Rebinner.__init__ v m mask = Ok self /\
    Rebinner._mask self = effective_mask v mask /\
    length (Rebinner._starts self) = length (Rebinner._stops self) /\
    bins_spec v (Rebinner._mask self) m (Rebinner.bins self).
Proof.
  intros Hm Hmask.
  pose proof (effective_mask_length v mask Hmask) as Hlen.
  unfold Rebinner.__init__.
  replace (Qlt_bool (np_sum v) m) with false
    by (unfold Qlt_bool; apply Qle_bool_iff in Hm; now rewrite Hm).
  replace (match mask with
           | Some mask0 =>
               _ <- assert (length mask0 =? length v)%nat ;; Ok mask0
           | None => Ok (repeat true (length v))
           end) with (Ok (effective_mask v mask)).
  2:{ destruct mask as [mk|]; simpl in *; [|reflexivity].
      now rewrite Hmask, Nat.eqb_refl. }
  cbn [bind].
  set (mk := effective_mask v mask) in *.
  destruct (loop_Inv v mk m v [] Rebinner.loop_init eq_refl (Inv_init v mk m))
    as (closed & b & [Hstops Hstarts Hb Hchain Hok Hcov Htrue Hn]).
  simpl length in *. fold (enumerate v) in *.
  set (st := Rebinner.loop mk m (enumerate v) Rebinner.loop_init) in *.
  destruct (Rebinner.bin_open st) eqn:Hopen.
  - (* a bin is left open: it closes at the end of the vector *)
    assert (Hl : length (Rebinner.starts st)
                 = length (Rebinner.stops st ++ [length v])).
    { rewrite Hstarts, Hstops, !length_app, !length_map. reflexivity. }
    rewrite Hl, Nat.eqb_refl. cbn [assert bind].
    eexists. split; [reflexivity|].
    unfold Rebinner.bins. cbn [Rebinner._mask Rebinner._starts Rebinner._stops].
    split; [reflexivity|]. split; [exact Hl|].
    replace (combine _ _) with (closed ++ [(b, length v)]).
    2:{ rewrite Hstarts, Hstops.
        rewrite <- (combine_fst_snd (closed ++ [(b, length v)])) at 1.
        now rewrite !map_app. }
    constructor.
    + auto with binner.
    + apply bin_ok_snoc; auto.
      cbn [snd]. intros Hc. rewrite nth_overflow in Hc by lia. discriminate.
    + intros j Hj Hmj. apply in_bins_snoc.
      destruct (Nat.lt_ge_cases j b); [left; auto|right; lia].
  - (* no bin is left open *)
    subst b. rewrite app_nil_r in Hstarts.
    assert (Hl : length (Rebinner.starts st) = length (Rebinner.stops st)).
    { rewrite Hstarts, Hstops, !length_map. reflexivity. }
    rewrite Hl, Nat.eqb_refl. cbn [assert bind].
    eexists. split; [reflexivity|].
    unfold Rebinner.bins. cbn [Rebinner._mask Rebinner._starts Rebinner._stops].
    split; [reflexivity|]. split; [exact Hl|].
    rewrite Hstarts, Hstops, combine_fst_snd.
    constructor; auto.
Qed.

(** * The relative comparison of [rebin] *)




(** * [rebin] and [rebin_errors] on the bins of a construction *)

Section RebinLemmas.

Import Rebinner.





End RebinLemmas.

(** * The scan of [bin_by_significance] *)

Section ScanLemmas.

Import TemporalBinner.

Variable li_and_ma : Z -> Q -> Q.
Variable li_and_ma_gaussian : Z -> Q -> Q -> Q.
Variable background_getter : Q -> Q -> Q.
Variable background_error_getter : option (Q -> Q -> Q).
Variable sigma_level : Q.
Variable min_counts : Z.

Lemma scan_body_reaches (st : scan_state) (time : Q) :
  reaches li_and_ma li_and_ma_gaussian background_getter
          background_error_getter sigma_level min_counts st time ->
  scan_body li_and_ma li_and_ma_gaussian background_getter
            background_error_getter sigma_level min_counts st time
  = {| starts := starts st ++ [current_start st];
       stops := stops st ++ [time];
       total_counts := 0; current_start := time |}.
Proof.
  intros [Hmin Hsig]. unfold scan_body.
  replace (total_counts st + 1 <? min_counts)%Z with false
    by (symmetry; apply Z.ltb_ge; exact Hmin).
  apply Qle_bool_iff in Hsig. now rewrite Hsig.
Qed.

Lemma scan_body_not_reaches (st : scan_state) (time : Q) :
  ~ reaches li_and_ma li_and_ma_gaussian background_getter
            background_error_getter sigma_level min_counts st time ->
  scan_body li_and_ma li_and_ma_gaussian background_getter
            background_error_getter sigma_level min_counts st time
  = {| starts := starts st; stops := stops st;
       total_counts := total_counts st + 1;
       current_start := current_start st |}.
Proof.
  intros Hno. unfold scan_body.
  destruct (total_counts st + 1 <? min_counts)%Z eqn:Hmin;
    [reflexivity|].
  destruct (Qle_bool sigma_level _) eqn:Hsig; [|reflexivity].
  exfalso. apply Hno. split.
  - apply Z.ltb_ge. exact Hmin.
  - apply Qle_bool_iff. exact Hsig.
Qed.

Lemma scan_never_reaches (times : list Q) (st : scan_state) :
  never_reaches li_and_ma li_and_ma_gaussian background_getter
                background_error_getter sigma_level min_counts st times ->
  let st' := scan li_and_ma li_and_ma_gaussian background_getter
                  background_error_getter sigma_level min_counts times st in
  starts st' = starts st /\ stops st' = stops st.
Proof.
  revert st. induction times as [|time times IH]; intros st H.
  - split; reflexivity.
  - destruct H as [Hno H]. cbn [scan fold_left].
    destruct (IH _ H) as [H1 H2]. unfold scan in H1, H2.
    cbv zeta. cbn [scan fold_left].
    rewrite H1, H2, (scan_body_not_reaches st time Hno).
    split; reflexivity.
Qed.

End ScanLemmas.


(** * Rebinner: construction *)

Section RebinnerConstruction.

Import Rebinner.



(** C4.  Six ones with threshold 2: without a mask the bins are [0,2),
    [2,4), [4,6) and [n_bins] is 3; with the mask [T,T,F,T,T,T] they are
    [0,2), [3,5), [5,6), and the last one holds less than the threshold. *)
Theorem example_bins_of_six_ones :
  (exists self,
      __init__ [1; 1; 1; 1; 1; 1] 2 None = Ok self /\
      bins self = [(0, 2); (2, 4); (4, 6)]%nat /\
      n_bins self = 3%nat) /\
  (exists self,
      __init__ [1; 1; 1; 1; 1; 1] 2
               (Some [true; true; false; true; true; true]) = Ok self /\
      bins self = [(0, 2); (3, 5); (5, 6)]%nat /\
      n_bins self = 3%nat /\
      np_sum (slice [1; 1; 1; 1; 1; 1] 5 6) < 2).
Proof.
  split; eexists; repeat split; reflexivity.
Qed.

(** C3.  After a valid construction every bin is a non-empty interval of
    masked-true positions inside the vector, the bins follow one another
    without overlap, and every masked-true position lies in exactly one
    bin. *)
Theorem bins_partition_masked_positions
    (v : list Q) (m : Q) (mask : option (list bool)) :
  m <= np_sum v -> valid_mask v mask ->
  exists self,
    __init__ v m mask = Ok self /\
    _mask self = effective_mask v mask /\
    length (_starts self) = length (_stops self) /\
    (forall k s e,
        nth_error (bins self) k = Some (s, e) ->
        (s < e <= length v)%nat /\
        forall j, (s <= j < e)%nat -> nth j (_mask self) false = true) /\
    (forall k1 k2 s1 e1 s2 e2,
        (k1 < k2)%nat ->
        nth_error (bins self) k1 = Some (s1, e1) ->
        nth_error (bins self) k2 = Some (s2, e2) ->
        (e1 <= s2)%nat) /\
    (forall j,
        (j < length v)%nat -> nth j (_mask self) false = true ->
        exists k,
          (exists s e, nth_error (bins self) k = Some (s, e) /\
                       (s <= j < e)%nat) /\
          forall k',
            (exists s e, nth_error (bins self) k' = Some (s, e) /\
                         (s <= j < e)%nat) ->
            k' = k).
Proof.
  intros Hm Hmask.
  destruct (init_ok v m mask Hm Hmask)
    as (self & Hinit & Hmk & Hlen & [Hchain Hok Hcov]).
  exists self. repeat (split; [assumption|]).
  split; [|split].
  - intros k s e Hk. apply nth_error_In in Hk.
    split.
    + pose proof (chain_In _ _ _ _ _ Hchain Hk). lia.
    + rewrite Forall_forall in Hok. exact (proj1 (Hok _ Hk)).
  - intros k1 k2 s1 e1 s2 e2. apply chain_ordered with (1 := Hchain).
  - intros j Hj Hmj.
    destruct (Hcov j Hj Hmj) as (s & e & Hin & Hse).
    destruct (In_nth_error _ _ Hin) as (k & Hk).
    exists k. split; [exists s, e; auto|].
    intros k' (s' & e' & Hk' & Hse').
    destruct (Nat.lt_trichotomy k' k) as [Hlt|[Heq|Hgt]]; [|exact Heq|].
    + pose proof (chain_ordered _ _ _ _ _ _ _ _ _ Hchain Hlt Hk' Hk). lia.
    + pose proof (chain_ordered _ _ _ _ _ _ _ _ _ Hchain Hgt Hk Hk'). lia.
Qed.

Lemma bins_partition_masked_positions_witness :
  exists self,
    __init__ [1; 1; 1; 1] 2 (Some [true; false; true; true]) = Ok self /\
    forall k1 k2 s1 e1 s2 e2,
      (k1 < k2)%nat ->
      nth_error (bins self) k1 = Some (s1, e1) ->
      nth_error (bins self) k2 = Some (s2, e2) ->
      (e1 <= s2)%nat.
Proof.
  destruct (bins_partition_masked_positions
              [1; 1; 1; 1] 2 (Some [true; false; true; true]))
    as (self & Hinit & _ & _ & _ & Hord & _).
  - unfold Qle. simpl. lia.
  - reflexivity.
  - exists self. split; [exact Hinit|exact Hord].
Defined.




End RebinnerConstruction.

(** * Rebinner: rebinning *)

Section RebinnerRebin.

Import Rebinner.







End RebinnerRebin.

(** * TemporalBinner *)

Section TemporalBinnerFacts.

Import TemporalBinner.

(** C7, as the claim has it, fails: construction from the empty sequence
    raises nothing. *)
Lemma empty_arrival_times_accepted :
  ~ exists e, __init__ [] = Raise e.
Proof.
  intros [e H]. discriminate H.
Qed.

(** C7, amended.  Construction validates nothing: it keeps the sequence
    as it is given, the empty one too.  An empty sequence fails later,
    with [IndexError], when a binning method reads the first arrival
    time. *)
Theorem init_keeps_any_sequence (arrival_times : list Q) :
  exists self,
    __init__ arrival_times = Ok self /\
    _arrival_times self = arrival_times /\
    (arrival_times = [] ->
     (forall li_and_ma li_and_ma_gaussian background_getter
             background_error_getter sigma_level min_counts,
         snd (bin_by_significance li_and_ma li_and_ma_gaussian
                background_getter background_error_getter
                sigma_level min_counts self) = Raise IndexError) /\
     (forall dt, snd (bin_by_constanst self dt) = Raise IndexError)).
Proof.
  eexists. split; [reflexivity|]. split; [reflexivity|].
  intros ->. split; reflexivity.
Qed.

Lemma init_keeps_any_sequence_witness :
  exists self,
    __init__ [] = Ok self /\
    snd (bin_by_constanst self 2) = Raise IndexError.
Proof.
  destruct (init_keeps_any_sequence []) as (self & Hinit & _ & H).
  exists self. split; [exact Hinit|].
  exact (proj2 (H eq_refl) 2).
Defined.

(** C8.  When the significance of the current window reaches
    [sigma_level] at an arrival time, the scan appends [current_start]
    to the starts and that time to the stops, moves [current_start] to
    that time and resets [total_counts] to 0; otherwise it appends
    nothing.  Nothing is appended after the scan: the bins of the whole
    sequence are those closed before a trailing run of arrival times
    that never reaches [sigma_level]. *)
Theorem significance_bins_close_on_sigma_only
    (li_and_ma : Z -> Q -> Q) (li_and_ma_gaussian : Z -> Q -> Q -> Q)
    (background_getter : Q -> Q -> Q)
    (background_error_getter : option (Q -> Q -> Q))
    (sigma_level : Q) (min_counts : Z) :
  let body := scan_body li_and_ma li_and_ma_gaussian background_getter
                        background_error_getter sigma_level min_counts in
  let run := scan li_and_ma li_and_ma_gaussian background_getter
                  background_error_getter sigma_level min_counts in
  let reaches := reaches li_and_ma li_and_ma_gaussian background_getter
                         background_error_getter sigma_level min_counts in
  let never_reaches :=
    never_reaches li_and_ma li_and_ma_gaussian background_getter
                  background_error_getter sigma_level min_counts in
  (forall st time,
      reaches st time ->
      body st time
      = {| starts := starts st ++ [current_start st];
           stops := stops st ++ [time];
           total_counts := 0; current_start := time |}) /\
  (forall st time,
      ~ reaches st time ->
      starts (body st time) = starts st /\
      stops (body st time) = stops st /\
      current_start (body st time) = current_start st) /\
  (forall (self : t) (first : Q) (pre suf : list Q),
      _arrival_times self = pre ++ suf ->
      hd_error (pre ++ suf) = Some first ->
      never_reaches (run pre (scan_init first)) suf ->
      bin_by_significance li_and_ma li_and_ma_gaussian background_getter
        background_error_getter sigma_level min_counts self
      = ({| _arrival_times := pre ++ suf;
            _starts := Some (starts (run pre (scan_init first)));
            _stops := Some (stops (run pre (scan_init first))) |},
         Ok tt)).
Proof.
  intros body run reaches never_reaches.
  split; [apply scan_body_reaches|]. split.
  - intros st time Hno. unfold body.
    rewrite (scan_body_not_reaches _ _ _ _ _ _ st time Hno).
    repeat split.
  - intros self first pre suf Hts Hhd Hquiet.
    unfold bin_by_significance. rewrite Hts.
    destruct (pre ++ suf) as [|t0 ts] eqn:Happ; [discriminate|].
    injection Hhd as ->. rewrite <- Happ.
    unfold scan at 1 2. rewrite fold_left_app.
    destruct (scan_never_reaches _ _ _ _ _ _ suf _ Hquiet) as [H1 H2].
    unfold run, scan in H1, H2 |- *. rewrite H1, H2. reflexivity.
Qed.

Lemma significance_bins_close_on_sigma_only_witness :
  scan_body (fun total _ => inject_Z total) (fun _ _ _ => 0)
    (fun _ _ => 0) None 3 1
    {| starts := []; stops := []; total_counts := 2; current_start := 0 |} 2
  = {| starts := [0]; stops := [2]; total_counts := 0; current_start := 2 |} /\
  bin_by_significance (fun total _ => inject_Z total) (fun _ _ _ => 0)
    (fun _ _ => 0) None 3 1
    {| _arrival_times := [0; 1; 2; 3; 4]; _starts := None; _stops := None |}
  = ({| _arrival_times := [0; 1; 2; 3; 4];
        _starts := Some [0]; _stops := Some [2] |}, Ok tt).
Proof.
  pose proof (significance_bins_close_on_sigma_only
                (fun total _ => inject_Z total) (fun _ _ _ => 0)
                (fun _ _ => 0) None 3 1) as (Hclose & _ & Hend).
  split.
  - apply (Hclose {| starts := []; stops := []; total_counts := 2;
                     current_start := 0 |} 2).
    split; [simpl; lia|]. unfold sigma_of, Qle. simpl. lia.
  - apply (Hend {| _arrival_times := [0; 1; 2; 3; 4];
                   _starts := None; _stops := None |}
                0 [0; 1; 2] [3; 4] eq_refl eq_refl).
    cbn. unfold reaches, sigma_of. cbn.
    repeat split; intros [_ H]; unfold Qle in H; simpl in H; lia.
Defined.



End TemporalBinnerFacts.

(** * Further properties of [Rebinner] construction *)

Section RebinnerConstructionMore.

Import Rebinner.

Lemma filter_none {A : Type} (f : A -> bool) (l : list A) :
  (forall a, In a l -> f a = false) -> filter f l = [].
Proof.
  induction l as [|a l IH]; intros H; simpl; [reflexivity|].
  rewrite (H a (or_introl eq_refl)). apply IH. intros b Hb. apply H. now right.
Qed.

Lemma filter_all {A : Type} (f : A -> bool) (l : list A) :
  (forall a, In a l -> f a = true) -> filter f l = l.
Proof.
  induction l as [|a l IH]; intros H; simpl; [reflexivity|].
  rewrite (H a (or_introl eq_refl)). f_equal. apply IH.
  intros b Hb. apply H. now right.
Qed.

Lemma filter_shift_length (f : nat -> bool) (l : list nat) :
  length (filter f (map S l)) = length (filter (fun j => f (S j)) l).
Proof.
  induction l as [|a l IH]; simpl; [reflexivity|].
  destruct (f (S a)); simpl; now rewrite IH.
Qed.

(** The true entries of a mask, counted over its indices. *)
Lemma count_true_indices (mask : list bool) :
  count_occ bool_dec mask true
  = length (filter (fun j => nth j mask false) (seq 0 (length mask))).
Proof.
  induction mask as [|b mask IH]; [reflexivity|].
  cbn [length seq filter nth]. rewrite <- seq_shift.
  destruct b.
  - rewrite count_occ_cons_eq by reflexivity. cbn [length].
    rewrite filter_shift_length. cbn [nth]. now rewrite IH.
  - rewrite count_occ_cons_neq by discriminate.
    rewrite filter_shift_length. cbn [nth]. exact IH.
Qed.

(** The widths of the bins of a chain add up to the number of positions
    that the bins cover. *)
Lemma chain_width (mk : nat -> bool) bs lo hi :
  chain lo bs hi ->
  (forall s e, In (s, e) bs ->
               forall j, (s <= j < e)%nat -> mk j = true) ->
  (forall j, (lo <= j < hi)%nat -> mk j = true -> in_bins bs j) ->
  list_sum (map (fun b => snd b - fst b)%nat bs)
  = length (filter mk (seq lo (hi - lo))).
Proof.
  revert lo. induction bs as [|[s e] bs IH]; intros lo Hchain Htrue Hcov.
  - simpl. rewrite filter_none; [reflexivity|].
    intros j Hj. apply in_seq in Hj.
    destruct (mk j) eqn:Hmj; [|reflexivity].
    destruct (Hcov j ltac:(lia) Hmj) as (s & e & [] & _).
  - destruct Hchain as (Hlo & Hse & Hchain).
    pose proof (chain_le _ _ _ Hchain) as Hhi.
    replace (hi - lo)%nat with ((s - lo) + ((e - s) + (hi - e)))%nat by lia.
    rewrite !seq_app, !filter_app, !length_app.
    replace (lo + (s - lo))%nat with s by lia.
    replace (s + (e - s))%nat with e by lia.
    unfold list_sum in IH |- *. cbn [map fold_right fst snd].
    rewrite (IH e Hchain).
    + rewrite (filter_none mk (seq lo (s - lo))), (filter_all mk (seq s (e - s))).
      * rewrite length_seq. reflexivity.
      * intros j Hj. apply in_seq in Hj.
        apply (Htrue s e (or_introl eq_refl)). lia.
      * intros j Hj. apply in_seq in Hj.
        destruct (mk j) eqn:Hmj; [|reflexivity].
        destruct (Hcov j ltac:(lia) Hmj) as (s' & e' & [Heq|Hin] & Hj').
        -- injection Heq as <- <-. lia.
        -- pose proof (chain_In _ _ _ _ _ Hchain Hin). lia.
    + intros s' e' Hin. apply Htrue. now right.
    + intros j Hj Hmj.
      destruct (Hcov j ltac:(lia) Hmj) as (s' & e' & [Heq|Hin] & Hj').
      * injection Heq as <- <-. lia.
      * exists s', e'. auto.
Qed.





Lemma widths_bound (bs : list (nat * nat)) :
  (forall s e, In (s, e) bs -> (s < e)%nat) ->
  (length bs <= list_sum (map (fun b => snd b - fst b)%nat bs))%nat.
Proof.
  induction bs as [|[s e] bs IH]; intros H; simpl; [lia|].
  pose proof (H s e (or_introl eq_refl)).
  assert (length bs <= list_sum (map (fun b => snd b - fst b)%nat bs))%nat
    by (apply IH; intros s' e' Hin; apply H; now right).
  lia.
Qed.

(** X2.  After a valid construction the widths of the bins add up to the
    number of masked-true positions; so there are at most that many bins,
    and there is no bin exactly when no position is masked-true. *)
Theorem bin_widths_count_masked
    (v : list Q) (m : Q) (mask : option (list bool)) :
  m <= np_sum v -> valid_mask v mask ->
  exists self,
    __init__ v m mask = Ok self /\
    list_sum (map (fun b => snd b - fst b)%nat (bins self))
    = count_occ bool_dec (_mask self) true /\
    (n_bins self <= count_occ bool_dec (_mask self) true)%nat /\
    (n_bins self = 0%nat <-> count_occ bool_dec (_mask self) true = 0%nat).
Proof.
  intros Hm Hmask.
  destruct (init_ok v m mask Hm Hmask)
    as (self & Hinit & Hmk & Hlen & [Hchain Hok Hcov]).
  assert (Hml : length (_mask self) = length v)
    by (rewrite Hmk; now apply effective_mask_length).
  assert (Hn : n_bins self = length (bins self)).
  { unfold n_bins, bins. rewrite length_combine. lia. }
  assert (Hw : list_sum (map (fun b => snd b - fst b)%nat (bins self))
               = count_occ bool_dec (_mask self) true).
  { rewrite count_true_indices, Hml.
    rewrite <- (Nat.sub_0_r (length v)) at 1.
    apply (chain_width (fun j => nth j (_mask self) false)); auto.
    - intros s e Hin. rewrite Forall_forall in Hok.
      exact (proj1 (Hok _ Hin)).
    - intros j Hj. apply Hcov. lia. }
  assert (Hb : (length (bins self)
                <= list_sum (map (fun b => snd b - fst b)%nat (bins self)))%nat).
  { apply widths_bound. intros s e Hin.
    pose proof (chain_In _ _ _ _ _ Hchain Hin). lia. }
  exists self. split; [exact Hinit|]. split; [exact Hw|].
  split; [lia|]. split; intros H0.
  - rewrite <- Hw. rewrite Hn in H0.
    apply length_zero_iff_nil in H0. now rewrite H0.
  - lia.
Qed.

Lemma bin_widths_count_masked_witness :
  exists self,
    __init__ [1; 1; 1; 1] 2 (Some [true; false; true; true]) = Ok self /\
    list_sum (map (fun b => snd b - fst b)%nat (bins self)) = 3%nat.
Proof.
  destruct (bin_widths_count_masked
              [1; 1; 1; 1] 2 (Some [true; false; true; true]))
    as (self & Hinit & Hw & _).
  - unfold Qle. simpl. lia.
  - reflexivity.
  - exists self. split; [exact Hinit|]. rewrite Hw.
    vm_compute in Hinit. injection Hinit as <-. reflexivity.
Defined.



End RebinnerConstructionMore.

(** * Bins are closed as early as possible *)

Section GreedyLoop.

Import Rebinner.

Variable v : list Q.
Variable mask : list bool.
Variable m : Q.







End GreedyLoop.

Section RebinnerGreedy.

Import Rebinner.



End RebinnerGreedy.

(** * Further properties of [rebin] and [rebin_errors] *)

Section RebinnerRebinMore.

Import Rebinner.




Lemma slice_agree {A : Type} (x y : list A) (d : A) (s e : nat) :
  (e <= length x)%nat -> length y = length x ->
  (forall j, (s <= j < e)%nat -> nth j x d = nth j y d) ->
  slice x s e = slice y s e.
Proof.
  intros He Hl H.
  rewrite (slice_as_map x d s e He), (slice_as_map y d s e) by lia.
  apply map_ext_in. intros j Hj. apply in_seq in Hj. apply H. lia.
Qed.

Lemma boolean_index_agree (x y : list Q) (mask : list bool) :
  length y = length x ->
  (forall j, nth j mask false = true -> nth j x 0 = nth j y 0) ->
  boolean_index x mask = boolean_index y mask.
Proof.
  revert y mask. induction x as [|a x IH]; intros [|b y] mask Hl H;
    simpl in Hl; try discriminate; [reflexivity|].
  destruct mask as [|c mask]; [reflexivity|]. cbn [boolean_index].
  assert (Ht : boolean_index x mask = boolean_index y mask).
  { apply IH; [lia|]. intros j Hj. exact (H (S j) Hj). }
  destruct c; [|exact Ht].
  rewrite Ht. f_equal. exact (H 0%nat eq_refl).
Qed.

(** X6.  After a valid construction the masked-out entries of a vector are
    not looked at: two vectors of the reference length that agree on the
    masked-true positions have the same per-bin sums, the same outcome of
    [rebin] and the same outcome of [rebin_errors]. *)
Theorem masked_out_entries_ignored
    (v : list Q) (m : Q) (mask : option (list bool)) :
  m <= np_sum v -> valid_mask v mask ->
  exists self,
    __init__ v m mask = Ok self /\
    forall x y : list Q,
      length x = length v -> length y = length v ->
      (forall j, nth j (_mask self) false = true -> nth j x 0 = nth j y 0) ->
      rebinned_vector self x = rebinned_vector self y /\
      rebin self [x] = rebin self [y] /\
      rebin_errors self [x] = rebin_errors self [y].
Proof.
  intros Hm Hmask.
  destruct (init_ok v m mask Hm Hmask)
    as (self & Hinit & Hmk & Hlen & [Hchain Hok Hcov]).
  exists self. split; [exact Hinit|].
  intros x y Hx Hy Hagree.
  assert (Hslice : forall b, In b (bins self) ->
            slice x (fst b) (snd b) = slice y (fst b) (snd b)).
  { intros [s e] Hin. cbn [fst snd].
    pose proof (chain_In _ _ _ _ _ Hchain Hin) as Hse.
    apply (slice_agree x y 0); [lia|congruence|].
    intros j Hj. apply Hagree.
    rewrite Forall_forall in Hok. exact (proj1 (Hok _ Hin) j Hj). }
  assert (Hreb : rebinned_vector self x = rebinned_vector self y).
  { unfold rebinned_vector. apply map_ext_in.
    intros b Hin. now rewrite (Hslice b Hin). }
  split; [exact Hreb|]. split.
  - cbn [rebin]. unfold rebin_vector.
    rewrite Hreb.
    rewrite (boolean_index_agree x y (_mask self) ltac:(congruence) Hagree).
    rewrite Hx, Hy. reflexivity.
  - cbn [rebin_errors]. unfold rebin_errors_vector.
    rewrite Hx, Hy.
    replace (map (fun b => sqrt (Q2R (np_sum (map (fun x0 => x0 ^ 2)
                                     (slice x (fst b) (snd b)))))) (bins self))
      with (map (fun b => sqrt (Q2R (np_sum (map (fun x0 => x0 ^ 2)
                                     (slice y (fst b) (snd b)))))) (bins self)).
    + reflexivity.
    + apply map_ext_in. intros b Hin. now rewrite (Hslice b Hin).
Qed.

Lemma masked_out_entries_ignored_witness :
  exists self,
    __init__ [1; 1; 1; 1] 2 (Some [true; false; true; true]) = Ok self /\
    rebin self [[3; 5; 7; 9]] = rebin self [[3; 100; 7; 9]].
Proof.
  destruct (masked_out_entries_ignored
              [1; 1; 1; 1] 2 (Some [true; false; true; true]))
    as (self & Hinit & H).
  - unfold Qle. simpl. lia.
  - reflexivity.
  - exists self. split; [exact Hinit|].
    apply (H [3; 5; 7; 9] [3; 100; 7; 9]); [reflexivity|reflexivity|].
    vm_compute in Hinit. injection Hinit as <-. cbn [_mask].
    intros [|[|[|[|j]]]] Hj; try reflexivity; try discriminate.
Defined.



Lemma map_slice {A B : Type} (f : A -> B) (x : list A) (s e : nat) :
  map f (slice x s e) = slice (map f x) s e.
Proof.
  unfold slice. now rewrite skipn_map, firstn_map.
Qed.

(** X8.  For every instance, what [rebin_errors] returns for a vector is
    the square root of the per-bin sums of the squared vector: combining
    errors in quadrature is rebinning the variances. *)
Theorem rebin_errors_is_sqrt_of_rebinned_squares
    (self : t) (x : list Q) (rs : list (list R)) :
  rebin_errors self [x] = Ok rs ->
  rs = [map (fun q => sqrt (Q2R q))
            (rebinned_vector self (map (fun y => y ^ 2) x))].
Proof.
  cbn [rebin_errors]. unfold rebin_errors_vector, rebinned_vector.
  case_asserts; [|discriminate].
  intros H. injection H as <-. f_equal.
  rewrite map_map. apply map_ext. intros b.
  now rewrite map_slice.
Qed.

Lemma rebin_errors_is_sqrt_of_rebinned_squares_witness :
  exists rs,
    rebin_errors
      {| _mask := [true; true]; _starts := [0%nat]; _stops := [2%nat];
         _min_value_per_bin := 1 |} [[3; 4]] = Ok rs /\
    rs = [map (fun q => sqrt (Q2R q))
              (rebinned_vector
                 {| _mask := [true; true]; _starts := [0%nat];
                    _stops := [2%nat]; _min_value_per_bin := 1 |}
                 (map (fun y => y ^ 2) [3; 4]))].
Proof.
  eexists. split; [reflexivity|].
  apply rebin_errors_is_sqrt_of_rebinned_squares. reflexivity.
Defined.

End RebinnerRebinMore.

(** * [get_new_start_and_stop] *)

Section NewEdges.

Import Rebinner.

Lemma getitem_nat (a : list Q) (i : nat) :
  (i < length a)%nat -> getitem a (Z.of_nat i) = Ok (nth i a 0).
Proof.
  intros Hi. unfold getitem.
  replace ((0 <=? Z.of_nat i) && (Z.of_nat i <? Z.of_nat (length a)))%Z
    with true by (symmetry; apply andb_true_iff; split;
                  [apply Z.leb_le|apply Z.ltb_lt]; lia).
  now rewrite Nat2Z.id.
Qed.

Lemma getitem_pred (a : list Q) (e : nat) :
  (0 < e <= length a)%nat ->
  getitem a (Z.of_nat e - 1) = Ok (nth (e - 1) a 0).
Proof.
  intros He. replace (Z.of_nat e - 1)%Z with (Z.of_nat (e - 1)) by lia.
  apply getitem_nat. lia.
Qed.

Lemma setitem_at (pre post : list Q) (y x : Q) :
  setitem (pre ++ y :: post) (length pre) x = Ok (pre ++ x :: post).
Proof.
  unfold setitem.
  replace (length pre <? length (pre ++ y :: post))%nat with true
    by (symmetry; apply Nat.ltb_lt; rewrite length_app; simpl; lia).
  rewrite firstn_app, firstn_all, Nat.sub_diag, app_nil_r.
  replace (S (length pre)) with (length (pre ++ [y]))
    by (rewrite length_app; simpl; lia).
  replace (pre ++ y :: post) with ((pre ++ [y]) ++ post)
    by (now rewrite <- app_assoc).
  rewrite skipn_app, skipn_all, Nat.sub_diag. reflexivity.
Qed.

(** The loop fills the two arrays from the left, one entry per bin. *)
Lemma new_edges_loop_ok (old_start old_stop : list Q)
    (items done : list (nat * nat)) (k : nat) :
  (forall s e, In (s, e) items ->
               (s < e)%nat /\ (e <= length old_start)%nat /\
               (e <= length old_stop)%nat) ->
  let f := fun b : nat * nat => nth (fst b) old_start 0 in
  let g := fun b : nat * nat => nth (snd b - 1) old_stop 0 in
  new_edges_loop old_start old_stop (enumerate_from (length done) items)
    (map f done ++ repeat 0 (length items + k),
     map g done ++ repeat 0 (length items + k))
  = Ok (map f (done ++ items) ++ repeat 0 k,
        map g (done ++ items) ++ repeat 0 k).
Proof.
  intros Hin f g. revert done.
  induction items as [|[s e] items IH]; intros done.
  - simpl. now rewrite app_nil_r.
  - destruct (Hin s e (or_introl eq_refl)) as (Hse & He1 & He2).
    cbn [enumerate_from new_edges_loop fst snd length Nat.add repeat].
    rewrite getitem_nat by lia. cbn [bind].
    rewrite <- (length_map f done) at 1. rewrite setitem_at. cbn [bind].
    rewrite getitem_pred by lia. cbn [bind].
    rewrite <- (length_map g done) at 1. rewrite setitem_at. cbn [bind].
    replace (S (length done)) with (length (done ++ [(s, e)]))
      by (rewrite length_app; simpl; lia).
    replace (map f done ++ nth s old_start 0 :: repeat 0 (length items + k))
      with (map f (done ++ [(s, e)]) ++ repeat 0 (length items + k))
      by (rewrite map_app, <- app_assoc; reflexivity).
    replace (map g done ++ nth (e - 1) old_stop 0
                 :: repeat 0 (length items + k))
      with (map g (done ++ [(s, e)]) ++ repeat 0 (length items + k))
      by (rewrite map_app, <- app_assoc; reflexivity).
    rewrite IH by (intros s' e' H'; apply Hin; now right).
    now rewrite <- app_assoc.
Qed.

(** After a valid construction, and for edge arrays of the reference
    length, the call returns the edges picked at the bin boundaries. *)
Lemma get_new_start_and_stop_ok (v : list Q) (m : Q) (self : t)
    (old_start old_stop : list Q) :
  length (_mask self) = length v ->
  length (_starts self) = length (_stops self) ->
  bins_spec v (_mask self) m (bins self) ->
  length old_start = length v -> length old_stop = length v ->
  get_new_start_and_stop self old_start old_stop
  = Ok (map (fun b => nth (fst b) old_start 0) (bins self),
        map (fun b => nth (snd b - 1) old_stop 0) (bins self)).
Proof.
  intros Hml Hlen [Hchain _ _] H1 H2.
  unfold get_new_start_and_stop.
  replace ((length old_start =? length (_mask self))%nat
           && (length old_stop =? length (_mask self))%nat) with true
    by (symmetry; apply andb_true_iff; split; apply Nat.eqb_eq; congruence).
  cbn [assert bind].
  assert (Hn : length (_starts self) = (length (bins self) + 0)%nat).
  { unfold bins. rewrite length_combine. lia. }
  rewrite Hn.
  pose proof (new_edges_loop_ok old_start old_stop (bins self) [] 0) as Hloop.
  cbv zeta in Hloop. cbn [map app length] in Hloop.
  unfold enumerate. rewrite Hloop.
  - now rewrite !app_nil_r.
  - intros s e Hin. pose proof (chain_In _ _ _ _ _ Hchain Hin). lia.
Qed.



Lemma edges_start_le_stop (old_start old_stop : list Q) (n : nat) :
  (forall j, (j < n)%nat -> nth j old_start 0 <= nth j old_stop 0) ->
  (forall j, (S j < n)%nat -> nth j old_stop 0 <= nth (S j) old_start 0) ->
  forall d i, (i + d < n)%nat -> nth i old_start 0 <= nth (i + d) old_stop 0.
Proof.
  intros H1 H2. induction d as [|d IH]; intros i Hi.
  - rewrite Nat.add_0_r. apply H1. lia.
  - apply Qle_trans with (nth (i + d) old_stop 0); [apply IH; lia|].
    replace (i + S d)%nat with (S (i + d)) by lia.
    apply Qle_trans with (nth (S (i + d)) old_start 0);
      [apply H2; lia|apply H1; lia].
Qed.

Lemma edges_stop_le_start (old_start old_stop : list Q) (n : nat) :
  (forall j, (j < n)%nat -> nth j old_start 0 <= nth j old_stop 0) ->
  (forall j, (S j < n)%nat -> nth j old_stop 0 <= nth (S j) old_start 0) ->
  forall i j, (i < j < n)%nat -> nth i old_stop 0 <= nth j old_start 0.
Proof.
  intros H1 H2 i j Hij.
  apply Qle_trans with (nth (S i) old_start 0); [apply H2; lia|].
  destruct (Nat.eq_dec (S i) j) as [->|Hne]; [apply Qle_refl|].
  apply Qle_trans with (nth (j - 1) old_stop 0).
  - replace (j - 1)%nat with (S i + (j - 1 - S i))%nat by lia.
    apply (edges_start_le_stop old_start old_stop n H1 H2). lia.
  - replace j with (S (j - 1)) at 2 by lia. apply H2. lia.
Qed.

(** X10.  After a valid construction, when the old edges are those of
    consecutive intervals (every start at most its stop, every stop at most
    the next start), the new edges are so too: every new start is at most
    its new stop, and every new stop at most the next new start. *)
Theorem new_edges_stay_ordered
    (v : list Q) (m : Q) (mask : option (list bool))
    (old_start old_stop : list Q) :
  m <= np_sum v -> valid_mask v mask ->
  length old_start = length v -> length old_stop = length v ->
  (forall j, (j < length v)%nat -> nth j old_start 0 <= nth j old_stop 0) ->
  (forall j, (S j < length v)%nat ->
             nth j old_stop 0 <= nth (S j) old_start 0) ->
  exists self new_start new_stop,
    __init__ v m mask = Ok self /\
    get_new_start_and_stop self old_start old_stop
    = Ok (new_start, new_stop) /\
    (forall k, (k < n_bins self)%nat ->
               nth k new_start 0 <= nth k new_stop 0) /\
    (forall k, (S k < n_bins self)%nat ->
               nth k new_stop 0 <= nth (S k) new_start 0).
Proof.
  intros Hm Hmask Hl1 Hl2 H1 H2.
  destruct (init_ok v m mask Hm Hmask)
    as (self & Hinit & Hmk & Hlen & Hspec).
  assert (Hml : length (_mask self) = length v)
    by (rewrite Hmk; now apply effective_mask_length).
  pose proof (get_new_start_and_stop_ok v m self _ _ Hml Hlen Hspec Hl1 Hl2)
    as Hrun.
  destruct Hspec as [Hchain _ _].
  assert (Hn : n_bins self = length (bins self)).
  { unfold n_bins, bins. rewrite length_combine. lia. }
  eexists self, _, _. split; [exact Hinit|]. split; [exact Hrun|].
  rewrite Hn. split.
  - intros k Hk.
    destruct (nth_error (bins self) k) as [[s e]|] eqn:Hb.
    2:{ apply nth_error_None in Hb. lia. }
    rewrite (nth_error_nth _ _ _
               (map_nth_error (fun b => nth (fst b) old_start 0) _ _ Hb)).
    rewrite (nth_error_nth _ _ _
               (map_nth_error (fun b => nth (snd b - 1) old_stop 0) _ _ Hb)).
    cbn [fst snd].
    pose proof (chain_In _ _ _ _ _ Hchain (nth_error_In _ _ Hb)) as Hse.
    replace (e - 1)%nat with (s + (e - 1 - s))%nat by lia.
    apply (edges_start_le_stop old_start old_stop (length v) H1 H2). lia.
  - intros k Hk.
    destruct (nth_error (bins self) k) as [[s1 e1]|] eqn:Hb1.
    2:{ apply nth_error_None in Hb1. lia. }
    destruct (nth_error (bins self) (S k)) as [[s2 e2]|] eqn:Hb2.
    2:{ apply nth_error_None in Hb2. lia. }
    rewrite (nth_error_nth _ _ _
               (map_nth_error (fun b => nth (snd b - 1) old_stop 0) _ _ Hb1)).
    rewrite (nth_error_nth _ _ _
               (map_nth_error (fun b => nth (fst b) old_start 0) _ _ Hb2)).
    cbn [fst snd].
    pose proof (chain_In _ _ _ _ _ Hchain (nth_error_In _ _ Hb1)) as Hse1.
    pose proof (chain_In _ _ _ _ _ Hchain (nth_error_In _ _ Hb2)) as Hse2.
    pose proof (chain_ordered _ _ _ _ _ _ _ _ _ Hchain
                  (Nat.lt_succ_diag_r k) Hb1 Hb2) as Hord.
    apply (edges_stop_le_start old_start old_stop (length v) H1 H2). lia.
Qed.

Lemma new_edges_stay_ordered_witness :
  exists self new_start new_stop,
    __init__ [1; 1; 1; 1] 2 None = Ok self /\
    get_new_start_and_stop self [0; 1; 2; 3] [1; 2; 3; 4]
    = Ok (new_start, new_stop) /\
    (forall k, (S k < n_bins self)%nat ->
               nth k new_stop 0 <= nth (S k) new_start 0).
Proof.
  destruct (new_edges_stay_ordered
              [1; 1; 1; 1] 2 None [0; 1; 2; 3] [1; 2; 3; 4])
    as (self & ns & nt & Hinit & Hrun & _ & H).
  - unfold Qle. simpl. lia.
  - exact I.
  - reflexivity.
  - reflexivity.
  - intros [|[|[|[|j]]]] Hj; simpl in Hj; try lia;
      unfold Qle; simpl; lia.
  - intros [|[|[|j]]] Hj; simpl in Hj; try lia;
      unfold Qle; simpl; lia.
  - exists self, ns, nt. auto.
Defined.

End NewEdges.

(** * Further properties of [TemporalBinner] *)

Section ScanMore.

Import TemporalBinner.

Variable li_and_ma : Z -> Q -> Q.
Variable li_and_ma_gaussian : Z -> Q -> Q -> Q.
Variable background_getter : Q -> Q -> Q.
Variable background_error_getter : option (Q -> Q -> Q).
Variable sigma_level : Q.
Variable min_counts : Z.

(** The three outcomes of one iteration. *)
Lemma scan_body_cases (st : scan_state) (time : Q) :
  let st' := scan_body li_and_ma li_and_ma_gaussian background_getter
                       background_error_getter sigma_level min_counts
                       st time in
  (st' = {| starts := starts st ++ [current_start st];
            stops := stops st ++ [time];
            total_counts := 0; current_start := time |} /\
   (min_counts <= total_counts st + 1)%Z) \/
  st' = {| starts := starts st; stops := stops st;
           total_counts := total_counts st + 1;
           current_start := current_start st |}.
Proof.
  unfold scan_body.
  destruct (total_counts st + 1 <? min_counts)%Z eqn:Hmin; [now right|].
  destruct (Qle_bool sigma_level _); [left|now right].
  split; [reflexivity|]. apply Z.ltb_ge. exact Hmin.
Qed.

(** Each bin starts where the one before stops, and stops at an arrival
    time. *)
Lemma scan_contiguous (first : Q) (times : list Q) (st : scan_state) :
  starts st ++ [current_start st] = first :: stops st ->
  let st' := scan li_and_ma li_and_ma_gaussian background_getter
                  background_error_getter sigma_level min_counts times st in
  starts st' ++ [current_start st'] = first :: stops st' /\
  (forall t, In t (stops st') -> In t (stops st) \/ In t times).
Proof.
  revert st. induction times as [|time times IH]; intros st H.
  - split; [exact H|]. intros t Ht. now left.
  - cbv zeta. cbn [scan fold_left].
    destruct (scan_body_cases st time) as [[E _]|E]; cbv zeta in E;
      rewrite E.
    + destruct (IH {| starts := starts st ++ [current_start st];
                      stops := stops st ++ [time];
                      total_counts := 0; current_start := time |})
        as [H1 H2].
      { cbn [starts stops current_start]. now rewrite H. }
      split; [exact H1|]. intros t Ht.
      destruct (H2 t Ht) as [Hin|Hin]; cbn [stops] in *.
      * apply in_app_or in Hin. destruct Hin as [Hin|[<-|[]]].
        -- now left.
        -- right. now left.
      * right. now right.
    + destruct (IH {| starts := starts st; stops := stops st;
                      total_counts := total_counts st + 1;
                      current_start := current_start st |} H)
        as [H1 H2].
      split; [exact H1|]. intros t Ht.
      destruct (H2 t Ht) as [Hin|Hin]; [now left|right; now right].
Qed.

(** On ascending arrival times no bin stops before it starts. *)
Lemma scan_sorted (times : list Q) (st : scan_state) :
  StronglySorted Qle times ->
  Forall (Qle (current_start st)) times ->
  Forall2 Qle (starts st) (stops st) ->
  let st' := scan li_and_ma li_and_ma_gaussian background_getter
                  background_error_getter sigma_level min_counts times st in
  Forall2 Qle (starts st') (stops st').
Proof.
  revert st. induction times as [|time times IH]; intros st Hs Hcs H.
  - exact H.
  - cbv zeta. cbn [scan fold_left].
    inversion Hs as [|? ? Hs' Hhd]; subst.
    inversion Hcs as [|? ? Hle Hcs']; subst.
    destruct (scan_body_cases st time) as [[E _]|E]; cbv zeta in E;
      rewrite E; apply IH; cbn [starts stops current_start]; auto.
    apply Forall2_app; [exact H|]. constructor; [exact Hle|constructor].
Qed.


End ScanMore.

Section TemporalBinnerMore.

Import TemporalBinner.

(** On a non-empty sequence the call returns, with as many starts as
    stops. *)
Lemma significance_bins_same_length
    (li_and_ma : Z -> Q -> Q) (li_and_ma_gaussian : Z -> Q -> Q -> Q)
    (background_getter : Q -> Q -> Q)
    (background_error_getter : option (Q -> Q -> Q))
    (sigma_level : Q) (min_counts : Z)
    (self : t) (first : Q) (rest : list Q) :
  _arrival_times self = first :: rest ->
  exists starts stops,
    bin_by_significance li_and_ma li_and_ma_gaussian background_getter
      background_error_getter sigma_level min_counts self
    = ({| _arrival_times := first :: rest;
          _starts := Some starts; _stops := Some stops |}, Ok tt) /\
    length starts = length stops.
Proof.
  intros Hts. unfold bin_by_significance. rewrite Hts.
  eexists _, _. split; [reflexivity|].
  destruct (scan_contiguous li_and_ma li_and_ma_gaussian background_getter
              background_error_getter sigma_level min_counts
              first (first :: rest) (scan_init first) eq_refl)
    as [Hc _].
  cbv zeta in Hc.
  set (st := scan _ _ _ _ _ _ (first :: rest) (scan_init first)) in *.
  apply (f_equal (@length Q)) in Hc.
  rewrite length_app in Hc. simpl in Hc. lia.
Qed.

(** X11.  On a non-empty sequence [bin_by_significance] returns as many
    starts as stops; the first bin starts at the first arrival time, every
    other bin starts where the one before stops, and every stop is one of
    the arrival times. *)
Theorem significance_bins_are_contiguous
    (li_and_ma : Z -> Q -> Q) (li_and_ma_gaussian : Z -> Q -> Q -> Q)
    (background_getter : Q -> Q -> Q)
    (background_error_getter : option (Q -> Q -> Q))
    (sigma_level : Q) (min_counts : Z)
    (self : t) (first : Q) (rest : list Q) :
  _arrival_times self = first :: rest ->
  exists starts stops,
    bin_by_significance li_and_ma li_and_ma_gaussian background_getter
      background_error_getter sigma_level min_counts self
    = ({| _arrival_times := first :: rest;
          _starts := Some starts; _stops := Some stops |}, Ok tt) /\
    length starts = length stops /\
    (forall k, (k < length starts)%nat ->
               nth k starts 0 = nth k (first :: stops) 0) /\
    (forall t, In t stops -> In t (first :: rest)).
Proof.
  intros Hts. unfold bin_by_significance. rewrite Hts.
  eexists _, _. split; [reflexivity|].
  destruct (scan_contiguous li_and_ma li_and_ma_gaussian background_getter
              background_error_getter sigma_level min_counts
              first (first :: rest) (scan_init first) eq_refl)
    as [Hc Hin].
  cbv zeta in Hc, Hin.
  set (st := scan _ _ _ _ _ _ (first :: rest) (scan_init first)) in *.
  assert (Hlen : length (starts st) = length (stops st)).
  { apply (f_equal (@length Q)) in Hc.
    rewrite length_app in Hc. simpl in Hc. lia. }
  split; [exact Hlen|]. split.
  - intros k Hk. rewrite <- Hc. now rewrite app_nth1.
  - intros t Ht. destruct (Hin t Ht) as [[]|H]. exact H.
Qed.

Lemma significance_bins_are_contiguous_witness :
  exists starts stops,
    bin_by_significance (fun total _ => inject_Z total) (fun _ _ _ => 0)
      (fun _ _ => 0) None 2 1
      {| _arrival_times := [0; 1; 2; 3; 4]; _starts := None; _stops := None |}
    = ({| _arrival_times := [0; 1; 2; 3; 4];
          _starts := Some starts; _stops := Some stops |}, Ok tt) /\
    length starts = length stops.
Proof.
  destruct (significance_bins_are_contiguous
              (fun total _ => inject_Z total) (fun _ _ _ => 0)
              (fun _ _ => 0) None 2 1
              {| _arrival_times := [0; 1; 2; 3; 4];
                 _starts := None; _stops := None |}
              0 [1; 2; 3; 4] eq_refl)
    as (ss & es & Hrun & Hlen & _).
  exists ss, es. split; [exact Hrun|exact Hlen].
Defined.

(** X12.  On arrival times in ascending order, every bin of
    [bin_by_significance] stops no earlier than it starts. *)
Theorem significance_bins_are_forward
    (li_and_ma : Z -> Q -> Q) (li_and_ma_gaussian : Z -> Q -> Q -> Q)
    (background_getter : Q -> Q -> Q)
    (background_error_getter : option (Q -> Q -> Q))
    (sigma_level : Q) (min_counts : Z)
    (self : t) (first : Q) (rest : list Q) :
  _arrival_times self = first :: rest ->
  StronglySorted Qle (first :: rest) ->
  exists starts stops,
    bin_by_significance li_and_ma li_and_ma_gaussian background_getter
      background_error_getter sigma_level min_counts self
    = ({| _arrival_times := first :: rest;
          _starts := Some starts; _stops := Some stops |}, Ok tt) /\
    Forall2 Qle starts stops.
Proof.
  intros Hts Hsorted. unfold bin_by_significance. rewrite Hts.
  eexists _, _. split; [reflexivity|].
  apply scan_sorted; [exact Hsorted| |constructor].
  cbn [scan_init current_start].
  inversion Hsorted as [|? ? _ Hhd]; subst.
  constructor; [apply Qle_refl|exact Hhd].
Qed.

Lemma significance_bins_are_forward_witness :
  exists starts stops,
    bin_by_significance (fun total _ => inject_Z total) (fun _ _ _ => 0)
      (fun _ _ => 0) None 2 1
      {| _arrival_times := [0; 1; 2]; _starts := None; _stops := None |}
    = ({| _arrival_times := [0; 1; 2];
          _starts := Some starts; _stops := Some stops |}, Ok tt) /\
    Forall2 Qle starts stops.
Proof.
  apply (significance_bins_are_forward
           (fun total _ => inject_Z total) (fun _ _ _ => 0)
           (fun _ _ => 0) None 2 1
           {| _arrival_times := [0; 1; 2]; _starts := None; _stops := None |}
           0 [1; 2] eq_refl).
  repeat constructor; unfold Qle; simpl; lia.
Defined.



End TemporalBinnerMore.

Section ConstantBinsMore.

Import TemporalBinner.






(** X15.  The property [bins] is not available on a new instance.  A call
    of [bin_by_significance] always leaves it available, with two empty
    lists when the call fails on an empty sequence.  A call of
    [bin_by_constanst] that fails leaves the instance as it was, and one
    that returns leaves [bins] available with as many starts as stops. *)
Theorem bins_available_after_binning :
  (forall arrival_times self,
      __init__ arrival_times = Ok self -> bins self = None) /\
  (forall li_and_ma li_and_ma_gaussian background_getter
          background_error_getter sigma_level min_counts self,
      let after := bin_by_significance li_and_ma li_and_ma_gaussian
                     background_getter background_error_getter
                     sigma_level min_counts self in
      exists starts stops,
        bins (fst after) = Some (starts, stops) /\
        length starts = length stops /\
        (snd after <> Ok tt -> starts = [] /\ stops = [])) /\
  (forall self dt,
      let after := bin_by_constanst self dt in
      (snd after <> Ok tt -> fst after = self) /\
      (snd after = Ok tt ->
       exists starts stops,
         bins (fst after) = Some (starts, stops) /\
         length starts = length stops)).
Proof.
  split; [|split].
  - intros ts self H. injection H as <-. reflexivity.
  - intros li_and_ma li_and_ma_gaussian background_getter
           background_error_getter sigma_level min_counts self after.
    destruct (_arrival_times self) as [|first rest] eqn:Hts.
    + unfold after, bin_by_significance. rewrite Hts.
      exists [], []. repeat split.
    + destruct (significance_bins_same_length
                  li_and_ma li_and_ma_gaussian background_getter
                  background_error_getter sigma_level min_counts
                  self first rest Hts) as (ss & es & Hrun & Hlen).
      unfold after. rewrite Hrun. exists ss, es.
      split; [reflexivity|]. split; [exact Hlen|].
      intros H. now contradiction H.
  - intros self dt after. unfold after, bin_by_constanst.
    destruct (_arrival_times self) as [|first rest];
      [split; [reflexivity|discriminate]|].
    destruct (np_arange _ _ _) as [tmp|e];
      [|split; [reflexivity|discriminate]].
    split; [intros H; now contradiction H|].
    intros _. eexists _, _. split; [reflexivity|]. now rewrite length_map.
Qed.

Lemma bins_available_after_binning_witness :
  bins {| _arrival_times := [1; 2]; _starts := None; _stops := None |} = None /\
  fst (bin_by_constanst
         {| _arrival_times := []; _starts := None; _stops := None |} 2)
  = {| _arrival_times := []; _starts := None; _stops := None |}.
Proof.
  destruct bins_available_after_binning as (Hnew & _ & Hconst).
  split.
  - apply (Hnew [1; 2]). reflexivity.
  - apply (proj1 (Hconst {| _arrival_times := []; _starts := None;
                            _stops := None |} 2)).
    discriminate.
Defined.

End ConstantBinsMore.
